(** * Youtube-pro-version-backend: credential model and upload helper

    A shallow embedding of the JavaScript of the repository:

    - the [userSchema] pre-save hook, [comparePassword],
      [generateAccessToken] and [generateRefreshToken] (the snippets of
      user.model.js explained in newTerms.md);
    - [uploadonCloudinary] (src/utils/cloudinary.js).

    The code is a thin layer over four libraries (bcrypt, jsonwebtoken,
    cloudinary, Node's fs).  Their functions are taken as records of
    functions; what a theorem needs of a library is a named contract in
    its hypotheses.  Small executable stand-ins of the libraries show the
    contracts to be satisfiable and let the code run on concrete inputs. *)

From Stdlib Require Import Ascii.
From stdpp Require Import base strings gmap list pretty.

(** ** JavaScript values, errors, completions *)

(** A plain object: its constructor name and its own string properties. *)
Record object := Object {
  obj_class : string;
  obj_props : list (string * string)
}.

Inductive value :=
  | VUndefined
  | VNull
  | VBool (b : bool)
  | VString (s : string)
  | VObject (o : object).

#[global] Instance object_eq_dec : EqDecision object.
Proof. solve_decision. Defined.

#[global] Instance value_eq_dec : EqDecision value.
Proof. solve_decision. Defined.

(** [!v] is [negb (truthy v)]. *)
Definition truthy (v : value) : bool :=
  match v with
  | VUndefined | VNull => false
  | VBool b => b
  | VString s => negb (bool_decide (s = ""))
  | VObject _ => true
  end.

(** [v.k]: reading a property that is not there gives [undefined]. *)
Definition get_prop (v : value) (k : string) : value :=
  match v with
  | VObject o =>
      match list_to_map (M := gmap string string) (obj_props o) !! k with
      | Some s => VString s
      | None => VUndefined
      end
  | _ => VUndefined
  end.

(** A thrown [Error] object (or the reason of a rejected promise). *)
Record Error := mkError {
  err_name : string;
  err_message : string
}.

#[global] Instance Error_eq_dec : EqDecision Error.
Proof. solve_decision. Defined.

(** How a call ends: with a value, or by throwing; for an [async]
    function, a promise fulfilled or rejected. *)
Inductive outcome (A : Type) :=
  | Returns (a : A)
  | Throws (e : Error).
Arguments Returns {A} a.
Arguments Throws {A} e.

(** ** The libraries, as the code sees them *)

(** [bcrypt.hash(data, saltRounds)] draws a random salt; the salt drawn
    is the third argument here.  [bcrypt.compare(data, encrypted)]. *)
Record BcryptLib := {
  bcrypt_hash : value → nat → string → outcome string;
  bcrypt_compare : value → value → outcome bool
}.

(** [jwt.sign(payload, secretOrPrivateKey, {expiresIn})], which reads the
    clock for the [iat] claim, and [jwt.verify(token, secretOrPublicKey)]
    restricted to the signature check and the decoding of the payload.
    The token is opaque to the code: its carrier belongs to the library. *)
Record JwtLib := {
  jwt_token : Type;
  jwt_sign : list (string * value) → value → value → Z → outcome jwt_token;
  jwt_verify : jwt_token → value → outcome (list (string * value))
}.

(** [cloudinary.uploader.upload(file, {resource_type})]: what the upload
    does depends on the files on disk and on the network. *)
Record CloudinaryLib := {
  uploader_upload : value → string → gset string → outcome object
}.

(** ** The process: environment, entropy, disk, and a trace of calls *)

Inductive call :=
  | BcryptHash (data : value) (saltRounds : nat)
  | BcryptCompare (data encrypted : value)
  | JwtSign (payload : list (string * value)) (secretOrPrivateKey expiresIn : value)
  | UploaderUpload (file : value) (resource_type : string)
  | ConsoleLog (args : list value)
  | FsUnlinkSync (path : value)
  | Next.

Record World := {
  env : gmap string string;      (* process.env *)
  scope : gmap string value;     (* bindings of the model file's free identifiers *)
  clock : Z;                     (* seconds since the epoch *)
  rand : nat → string;           (* the salts the process will draw *)
  drawn : nat;                   (* how many it has drawn *)
  files : gset string;           (* paths that exist on the local disk *)
  trace : list call              (* library calls so far, oldest first *)
}.

Definition log (c : call) (w : World) : World :=
  {| env := env w; scope := scope w; clock := clock w; rand := rand w;
     drawn := drawn w; files := files w; trace := trace w ++ [c] |}.

Definition draw (w : World) : World :=
  {| env := env w; scope := scope w; clock := clock w; rand := rand w;
     drawn := S (drawn w); files := files w; trace := trace w |}.

Definition with_files (fs : gset string) (w : World) : World :=
  {| env := env w; scope := scope w; clock := clock w; rand := rand w;
     drawn := drawn w; files := fs; trace := trace w |}.

Definition configure (e : gmap string string) (s : gmap string value)
    (w : World) : World :=
  {| env := e; scope := s; clock := clock w; rand := rand w;
     drawn := drawn w; files := files w; trace := trace w |}.

(** ** A state and exception monad for JavaScript code *)

Definition JS (A : Type) : Type := World → outcome A * World.

#[global] Instance JS_ret : MRet JS := λ A a w, (Returns a, w).

#[global] Instance JS_bind : MBind JS := λ A B f m w,
  match m w with
  | (Returns a, w') => f a w'
  | (Throws e, w') => (Throws e, w')
  end.

(** [try { body } catch (error) { handler }]: what [body] did to the world
    before it threw stays done. *)
Definition try_catch {A} (body : JS A) (handler : Error → JS A) : JS A := λ w,
  match body w with
  | (Returns a, w') => (Returns a, w')
  | (Throws e, w') => handler e w'
  end.

(** Lifting the end of a library call into the monad, after recording it. *)
Definition perform {A} (c : call) (r : outcome A) : JS A := λ w,
  (r, log c w).

(** ** Ambient operations *)

(** [process.env.NAME]: a string, or [undefined] when the variable is unset. *)
Definition env_value (w : World) (name : string) : value :=
  match env w !! name with
  | Some s => VString s
  | None => VUndefined
  end.

Definition process_env (name : string) : JS value := λ w,
  (Returns (env_value w name), w).

Definition ReferenceError (name : string) : Error :=
  mkError "ReferenceError" (name +:+ " is not defined").

(** A free identifier of the model file: its binding, or a
    [ReferenceError] when nothing declares it. *)
Definition ident (name : string) : JS value := λ w,
  match scope w !! name with
  | Some v => (Returns v, w)
  | None => (Throws (ReferenceError name), w)
  end.

Definition console_log (args : list value) : JS unit :=
  perform (ConsoleLog args) (Returns ()).

(** The continuation Mongoose hands to a hook. *)
Definition next : JS unit := perform Next (Returns ()).

Definition ENOENT (syscall path : string) : Error :=
  mkError "Error"
    ("ENOENT: no such file or directory, " +:+ syscall +:+ " '" +:+ path +:+ "'").

(** How Node describes the value it got in place of a path. *)
Definition received (v : value) : string :=
  match v with
  | VUndefined => "undefined"
  | VNull => "null"
  | VBool b => "type boolean (" +:+ (if b then "true" else "false") +:+ ")"
  | VString s => "type string ('" +:+ s +:+ "')"
  | VObject o => "an instance of " +:+ obj_class o
  end.

(** The double quote character. *)
Definition dquote : string := String "034"%char EmptyString.

(** Node's [TypeError] (code ERR_INVALID_ARG_TYPE) for a path that is no
    string, Buffer or URL. *)
Definition ERR_INVALID_ARG_TYPE (v : value) : Error :=
  mkError "TypeError"
    ("The " +:+ dquote +:+ "path" +:+ dquote +:+
     " argument must be of type string or an instance of Buffer or URL." +:+
     " Received " +:+ received v).

(** [fs.unlinkSync(path)] removes the file, and throws when there is none. *)
Definition fs_unlinkSync (path : value) : JS unit := λ w,
  let w' := log (FsUnlinkSync path) w in
  match path with
  | VString p =>
      if decide (p ∈ files w)
      then (Returns (), with_files (files w ∖ {[p]}) w')
      else (Throws (ENOENT "unlink" p), w')
  | _ => (Throws (ERR_INVALID_ARG_TYPE path), w')
  end.

(** [import { response } from 'express']: the prototype of Express's
    response objects.  It has methods and no [url]. *)
Definition response : value := VObject (Object "ServerResponse" []).

(** ** Mongoose documents *)

(** A document: its current field values and the paths changed since it
    was last read from or written to the database. *)
Record Document := {
  fields : gmap string value;
  modifiedPaths : gset string
}.

(** [this.path] *)
Definition get (this : Document) (path : string) : value :=
  default VUndefined (fields this !! path).

(** [this.isModified(path)] *)
Definition isModified (path : string) (this : Document) : bool :=
  bool_decide (path ∈ modifiedPaths this).

(** [this.path = v]: the setter marks the path modified when the value
    differs from the one the document holds. *)
Definition assign (path : string) (v : value) (this : Document) : Document :=
  if decide (get this path = v) then this
  else {| fields := <[path := v]> (fields this);
          modifiedPaths := {[path]} ∪ modifiedPaths this |}.

(** What Mongoose does with a document once its hooks called [next]: the
    fields are written and nothing is modified any more. *)
Definition persisted (this : Document) : Document :=
  {| fields := fields this; modifiedPaths := ∅ |}.

(** ** The code of the repository *)

Section Code.
Context (B : BcryptLib) (J : JwtLib) (C : CloudinaryLib).

Definition bcrypt_hash_call (data : value) (saltRounds : nat) : JS string := λ w,
  (bcrypt_hash B data saltRounds (rand w (drawn w)),
   draw (log (BcryptHash data saltRounds) w)).

Definition bcrypt_compare_call (data encrypted : value) : JS bool :=
  perform (BcryptCompare data encrypted) (bcrypt_compare B data encrypted).

Definition jwt_sign_call (payload : list (string * value))
    (secretOrPrivateKey expiresIn : value) : JS (jwt_token J) := λ w,
  (jwt_sign J payload secretOrPrivateKey expiresIn (clock w),
   log (JwtSign payload secretOrPrivateKey expiresIn) w).

Definition uploader_upload_call (file : value) (resource_type : string)
    : JS object := λ w,
  (uploader_upload C file resource_type (files w),
   log (UploaderUpload file resource_type) w).

(** newTerms.md, "Part 1: Hashing the Password Before Saving":
<<
    userSchema.pre('save', async function (next) {
      if (!this.isModified('Password')) return next();
      this.Password = await bcrypt.hash(this.Password, 10);
      next();
    })
>>
    The result is the document as the hook leaves it. *)
Definition userSchema_pre_save (this : Document) : JS Document :=
  if negb (isModified "Password" this) then
    next;; mret this
  else
    hashed ← bcrypt_hash_call (get this "Password") 10;
    let this := assign "Password" (VString hashed) this in
    next;; mret this.

(** newTerms.md, "Part 2: Comparing Passwords for Login":
<<
    userSchema.methods.comparePassword = async function (Password) {
      return await bcrypt.compare(Password, this.Password)
    }
>> *)
Definition comparePassword (Password : value) (this : Document) : JS bool :=
  bcrypt_compare_call Password (get this "Password").

(** newTerms.md, "Word-by-Word Breakdown":
<<
    userSchema.methods.generateAccessToken = function () {
      return jwt.sign(
        { _id: this._id, username: this.username,
          email: this.email, fullName: this.fullName },
        process.env.JWT_ACCESS_TOKEN_SECRET,
        { expiresIn: JWT_ACCESS_TOKEN_EXPIRY }
      );
>> *)
Definition generateAccessToken (this : Document) : JS (jwt_token J) :=
  let payload := [("_id", get this "_id");
                  ("username", get this "username");
                  ("email", get this "email");
                  ("fullName", get this "fullName")] in
  secret ← process_env "JWT_ACCESS_TOKEN_SECRET";
  expiresIn ← ident "JWT_ACCESS_TOKEN_EXPIRY";
  jwt_sign_call payload secret expiresIn.

(** newTerms.md, "The generateRefreshToken Function": "This function is
    identical, but with two key differences":
    [process.env.JWT_REFRESH_TOKEN_SECRET] and
    [JWT_REFRESH_TOKEN_EXPIRY]. *)
Definition generateRefreshToken (this : Document) : JS (jwt_token J) :=
  let payload := [("_id", get this "_id");
                  ("username", get this "username");
                  ("email", get this "email");
                  ("fullName", get this "fullName")] in
  secret ← process_env "JWT_REFRESH_TOKEN_SECRET";
  expiresIn ← ident "JWT_REFRESH_TOKEN_EXPIRY";
  jwt_sign_call payload secret expiresIn.

(** src/utils/cloudinary.js:
<<
    const uploadonCloudinary = async (localfilepath) => {
      try {
        if (!localfilepath) return null;
        const uploadResult = await cloudinary.uploader.upload(
          localfilepath, { resource_type: 'auto' })
        console.log("File is uploaded on cloudinary", response.url);
        return response;
      } catch (error) {
        fs.unlinkSync(localfilepath)
      }
    }
>>
    Falling off the end of the [catch] returns [undefined]. *)
Definition uploadonCloudinary (localfilepath : value) : JS value :=
  try_catch
    (if negb (truthy localfilepath) then mret VNull
     else
       uploadResult ← uploader_upload_call localfilepath "auto";
       console_log [VString "File is uploaded on cloudinary";
                    get_prop response "url"];;
       mret response)
    (λ error,
       fs_unlinkSync localfilepath;;
       mret VUndefined).

End Code.

(** ** What the theorems ask of the libraries *)

Section Contracts.
Context (B : BcryptLib) (J : JwtLib).

(** bcrypt hashes every string at a cost factor it supports. *)
Definition bcrypt_hashes_strings : Prop :=
  ∀ (p : string) (r : nat) (salt : string), (4 ≤ r ≤ 31)%nat →
    ∃ h, bcrypt_hash B (VString p) r salt = Returns h.

(** [compare] accepts a string against any hash [hash] made of it. *)
Definition bcrypt_compare_accepts : Prop :=
  ∀ (p : string) r salt h,
    bcrypt_hash B (VString p) r salt = Returns h →
    bcrypt_compare B (VString p) (VString h) = Returns true.

(** On two strings [compare] answers, and says [true] exactly when the
    second is a hash of the first (under the salt and cost it embeds). *)
Definition bcrypt_compare_decides : Prop :=
  ∀ (a h : string), ∃ b : bool,
    bcrypt_compare B (VString a) (VString h) = Returns b ∧
    (b = true ↔ ∃ r salt, bcrypt_hash B (VString a) r salt = Returns h).

(** The hash string carries its salt: other salt, other string. *)
Definition bcrypt_salt_embedded : Prop :=
  ∀ (p : string) r s1 s2 h1 h2,
    bcrypt_hash B (VString p) r s1 = Returns h1 →
    bcrypt_hash B (VString p) r s2 = Returns h2 →
    s1 ≠ s2 → h1 ≠ h2.

Definition secretOrPrivateKey_required : Error :=
  mkError "Error" "secretOrPrivateKey must have a value".

Definition invalid_signature : Error :=
  mkError "JsonWebTokenError" "invalid signature".

(** [if (!secretOrPrivateKey) throw ...] is the first check of [sign]. *)
Definition jwt_sign_requires_secret : Prop :=
  ∀ payload key expiresIn now, truthy key = false →
    jwt_sign J payload key expiresIn now = Throws secretOrPrivateKey_required.

(** With a non-empty string key and a time span [sign] understands, a
    token comes out. *)
Definition jwt_sign_succeeds (timespan : value → bool) : Prop :=
  ∀ payload (k : string) expiresIn now, k ≠ "" → timespan expiresIn = true →
    ∃ t, jwt_sign J payload (VString k) expiresIn now = Returns t.

(** Under the key that signed it a token verifies, and its claims
    contain the string entries of the payload. *)
Definition jwt_verify_own_key : Prop :=
  ∀ payload (k : string) expiresIn now t,
    jwt_sign J payload (VString k) expiresIn now = Returns t →
    ∃ claims, jwt_verify J t (VString k) = Returns claims ∧
      ∀ name (s : string), (name, VString s) ∈ payload →
                           (name, VString s) ∈ claims.

(** Under any other key the signature check fails (the MAC idealised:
    no two keys sign alike). *)
Definition jwt_verify_other_key : Prop :=
  ∀ payload (k k' : string) expiresIn now t,
    jwt_sign J payload (VString k) expiresIn now = Returns t →
    k' ≠ k →
    jwt_verify J t (VString k') = Throws invalid_signature.

End Contracts.

(** ** Executable stand-ins for the libraries

    They obey the contracts above and reproduce the argument checks of
    the libraries; they make no cryptographic claim (the "digest" of the
    bcrypt stand-in is the data itself, the "signature" of the jwt
    stand-in is the key). *)

Module Standin.

Definition bcrypt_arguments_required : Error :=
  mkError "Error" "data and hash arguments required".

Definition bcrypt_not_strings : Error :=
  mkError "Error" "data and hash must be strings".

Definition bcrypt_hash_arguments_required : Error :=
  mkError "Error" "data and salt arguments required".

Definition bcrypt_hash_not_string : Error :=
  mkError "Error"
    "data must be a string or Buffer and salt must either be a salt string or a number of rounds".

(** bcrypt checks its arguments before it hashes or compares: a missing
    argument ([data == null || hash == null]) and an argument that is not
    a string both end in an [Error]. *)
Definition bcrypt : BcryptLib := {|
  bcrypt_hash := λ data saltRounds salt,
    match data with
    | VString p => Returns (p +:+ "$" +:+ salt)
    | VUndefined | VNull => Throws bcrypt_hash_arguments_required
    | _ => Throws bcrypt_hash_not_string
    end;
  bcrypt_compare := λ data encrypted,
    match data, encrypted with
    | VString a, VString h => Returns (String.prefix (a +:+ "$") h)
    | (VUndefined | VNull), _ | _, (VUndefined | VNull) =>
        Throws bcrypt_arguments_required
    | _, _ => Throws bcrypt_not_strings
    end
|}.

Definition is_digit (c : Ascii.ascii) : bool :=
  bool_decide (48 ≤ Ascii.nat_of_ascii c ≤ 57)%nat.

(** The decimal number a string starts with, and what follows it. *)
Fixpoint leading_number (s : string) (acc : Z) : Z * string :=
  match s with
  | String c rest =>
      if is_digit c
      then leading_number rest (10 * acc + (Z.of_nat (Ascii.nat_of_ascii c) - 48))
      else (acc, s)
  | EmptyString => (acc, s)
  end.

(** A time span such as "15m" or "7d", in seconds. *)
Definition seconds (expiresIn : value) : option Z :=
  match expiresIn with
  | VString (String c _ as s) =>
      if is_digit c then
        let '(n, unit) := leading_number s 0 in
        if bool_decide (unit = "s") then Some n
        else if bool_decide (unit = "m") then Some (60 * n)%Z
        else if bool_decide (unit = "h") then Some (3600 * n)%Z
        else if bool_decide (unit = "d") then Some (86400 * n)%Z
        else None
      else None
  | _ => None
  end.

Definition timespan (expiresIn : value) : bool :=
  bool_decide (is_Some (seconds expiresIn)).

Record token := {
  claims : list (string * value);
  iat : Z;
  exp : Z;
  signed_with : string
}.

Definition invalid_key : Error :=
  mkError "Error" "secretOrPrivateKey is not valid key material".

Definition invalid_expiresIn : Error :=
  mkError "Error"
    "expiresIn should be a number of seconds or string representing a timespan".

(** jsonwebtoken's [sign] starts with
    [if (!secretOrPrivateKey) throw new Error('secretOrPrivateKey must have a value')]
    and then validates [expiresIn]; [verify] throws a [JsonWebTokenError]
    "invalid signature" when the signature does not match the key. *)
Definition jwt : JwtLib := {|
  jwt_token := token;
  jwt_sign := λ payload key expiresIn now,
    if negb (truthy key) then Throws secretOrPrivateKey_required
    else match key with
         | VString k =>
             match seconds expiresIn with
             | Some ttl =>
                 Returns {| claims := payload; iat := now;
                            exp := (now + ttl)%Z; signed_with := k |}
             | None => Throws invalid_expiresIn
             end
         | _ => Throws invalid_key
         end;
  jwt_verify := λ t key,
    match key with
    | VString k =>
        if decide (k = signed_with t) then Returns (claims t)
        else Throws invalid_signature
    | _ => Throws (mkError "JsonWebTokenError"
                     "secret or public key must be provided")
    end
|}.

(** A Cloudinary that is reachable: it uploads the files that exist, and
    rejects with the [ENOENT] of opening the file when there is none. *)
Definition cloudinary : CloudinaryLib := {|
  uploader_upload := λ file resource_type disk,
    match file with
    | VString p =>
        if decide (p ∈ disk)
        then Returns (Object "UploadApiResponse"
                        [("url", "http://res.cloudinary.com/demo/" +:+ p);
                         ("resource_type", resource_type)])
        else Throws (ENOENT "open" p)
    | _ => Throws (ERR_INVALID_ARG_TYPE file)
    end
|}.

(** A Cloudinary that cannot be reached. *)
Definition cloudinary_unreachable : CloudinaryLib := {|
  uploader_upload := λ file resource_type disk,
    Throws (mkError "Error" "getaddrinfo ENOTFOUND api.cloudinary.com")
|}.

(** A process with nothing configured, an empty disk, no call made. *)
Definition boot : World := {|
  env := ∅; scope := ∅; clock := 1700000000;
  rand := λ n, if decide (n = 0)%nat then "N9qo8uLOickgx2ZMRZoMye"
               else "IjZAgcfl7p92ldGxad68LJ";
  drawn := 0; files := ∅; trace := []
|}.

End Standin.

(** ** Notions the statements use *)

(** The calls recorded between an earlier world and a later one. *)
Definition calls_between (w w' : World) : list call :=
  drop (length (trace w)) (trace w').

(** The object literal both generators pass to [jwt.sign]. *)
Definition identity_claims (this : Document) : list (string * value) :=
  [("_id", get this "_id"); ("username", get this "username");
   ("email", get this "email"); ("fullName", get this "fullName")].

(** How a call fails: by throwing an error of a given class. *)
Definition fails_with {A} (name : string) (r : outcome A) : Prop :=
  ∃ e, r = Throws e ∧ err_name e = name.

(** A call resolves: it ends with a value, not by throwing. *)
Definition resolves {A} (r : outcome A) : Prop := ∃ a, r = Returns a.


(** ** Sample data *)

Module Sample.

(** A registration about to be saved: every path is new, the password
    is the plaintext the caller sent. *)
Definition registration : Document := {|
  fields := {[ "_id" := VString "65f1c0ffee0ddba11deadbee";
               "username" := VString "tushar";
               "email" := VString "tushar@example.com";
               "fullName" := VString "Tushar P";
               "Password" := VString "Sup3rSecret!" ]};
  modifiedPaths := {[ "_id"; "username"; "email"; "fullName"; "Password" ]}
|}.

(** The same account as a query that leaves the password out returns it
    ([select("-Password")]). *)
Definition without_password : Document := {|
  fields := {[ "_id" := VString "65f1c0ffee0ddba11deadbee";
               "username" := VString "tushar";
               "email" := VString "tushar@example.com";
               "fullName" := VString "Tushar P" ]};
  modifiedPaths := ∅
|}.

Definition avatar : string := "public/temp/avatar.png".

End Sample.

(** ** Sample configurations *)

Module Deployed.

(** A process configured under the names the code reads. *)
Definition world : World :=
  configure
    {[ "JWT_ACCESS_TOKEN_SECRET" := "access-secret";
       "JWT_REFRESH_TOKEN_SECRET" := "refresh-secret" ]}
    {[ "JWT_ACCESS_TOKEN_EXPIRY" := VString "15m";
       "JWT_REFRESH_TOKEN_EXPIRY" := VString "7d" ]}
    Standin.boot.

(** The same process with no access-token secret in its environment. *)
Definition without_access_secret : World :=
  configure
    {[ "JWT_REFRESH_TOKEN_SECRET" := "refresh-secret" ]}
    {[ "JWT_ACCESS_TOKEN_EXPIRY" := VString "15m";
       "JWT_REFRESH_TOKEN_EXPIRY" := VString "7d" ]}
    Standin.boot.


End Deployed.

(** ** Effects of the HTTP layer and of the bootstrap

    [asyncHandler] and [startServer] touch neither the disk nor the
    entropy of the process; their effects are events appended to a log. *)

Definition Eff (E A : Type) : Type := list E → outcome A * list E.

#[global] Instance Eff_ret {E} : MRet (Eff E) := λ A a s, (Returns a, s).

#[global] Instance Eff_bind {E} : MBind (Eff E) := λ A B f m s,
  match m s with
  | (Returns a, s') => f a s'
  | (Throws e, s') => (Throws e, s')
  end.

Definition emit {E} (e : E) : Eff E unit := λ s, (Returns (), s ++ [e]).

(** The end of a call into a collaborator. *)
Definition settle {E A} (r : outcome A) : Eff E A := λ s, (r, s).

Definition try_catch_eff {E A} (body : Eff E A) (handler : Error → Eff E A)
    : Eff E A := λ s,
  match body s with
  | (Returns a, s') => (Returns a, s')
  | (Throws e, s') => handler e s'
  end.

(** *** asyncHandler *)

(** What calling a request handler gives back: a value that is no
    promise, or a promise and the way it settles. *)
Inductive handled :=
  | Plain (v : value)
  | Fulfilled (v : value)
  | Rejected (err : Error)
  | Pending.

Inductive http_event :=
  | NextCalled (err : option Error)         (* next() or next(err) *)
  | Responded (status : nat) (body : value). (* res.status(..).json(..) *)

(** Express's [next], for a log of [http_event]s. *)
Definition express_next (err : option Error) : Eff http_event unit :=
  emit (NextCalled err).

Section AsyncHandler.
Context {E Req Res : Type}.

(** newTerms.md, "asyncHandler code":
<<
    const asyncHandler = (requestHandler) => (req, res, next) => {
      Promise.resolve(requestHandler(req, res, next)).catch(err => next(err))
    }
>>
    [requestHandler(req, res, next)] is evaluated first: if it throws, the
    call of [Promise.resolve] is never reached.  The [catch] callback runs
    only for a rejected promise; what [next(err)] itself ends with stays
    in the promise [catch] returns, which nobody reads.  The arrow
    function has a block body and returns [undefined]. *)
Definition asyncHandler
    (requestHandler : Req → Res → (option Error → Eff E unit) → Eff E handled)
    (req : Req) (res : Res) (next : option Error → Eff E unit) : Eff E value :=
  result ← requestHandler req res next;
  match result return Eff E value with
  | Rejected err => λ s, (Returns VUndefined, (next (Some err) s).2)
  | Plain _ | Fulfilled _ | Pending => mret VUndefined
  end.

End AsyncHandler.

(** *** startServer (the entry file) *)

(** The value of [process.env.PORT || 8000]: a string of the
    environment, or the number 8000. *)
Inductive port :=
  | EnvPort (s : string)
  | DefaultPort.

Definition port_to_string (p : port) : string :=
  match p with
  | EnvPort s => s
  | DefaultPort => "8000"
  end.

Inductive boot_event :=
  | ConnectDB
  | AppOn (event : string)
  | AppListen (p : port)
  | ConsoleLogged (message : string)
  | ConsoleError (message : string) (error : Error).

(** [process.env.PORT || 8000]: the empty string is falsy, every other
    string is truthy. *)
Definition server_port (environment : gmap string string) : port :=
  match environment !! "PORT" with
  | Some s => if decide (s = "") then DefaultPort else EnvPort s
  | None => DefaultPort
  end.

(** The entry file:
<<
    const startServer = async () => {
      try {
        await connectDB();
        app.on("error", (error) => {
          console.error("Express error:", error);
          throw error;
        });
        const port = process.env.PORT || 8000;
        app.listen(port, () => {
          console.log(`✅ Server is running at port: ${port}`);
        });
      } catch (error) {
        console.error("❌ Failed to start server:", error);
      }
    };
>>
    [connectDB] (./db/index.js) resolves or rejects.  [app.listen] throws
    at once, or returns; the callback runs if the server comes to listen
    ([true]) and never otherwise ([false]). *)
Definition startServer (environment : gmap string string)
    (connectDB : outcome unit) (listen : port → outcome bool)
    : Eff boot_event value :=
  try_catch_eff
    (emit ConnectDB;;
     settle connectDB;;
     emit (AppOn "error");;
     let port := server_port environment in
     emit (AppListen port);;
     listening ← settle (listen port);
     (if listening : bool
      then emit (ConsoleLogged
                   ("✅ Server is running at port: " +:+ port_to_string port))
      else mret ());;
     mret VUndefined)
    (λ error,
       emit (ConsoleError "❌ Failed to start server:" error);;
       mret VUndefined).

(** What follows the call of [app.listen] in the log of [startServer]. *)
Definition after_listen (listen : port → outcome bool) (p : port)
    : list boot_event :=
  match listen p with
  | Returns true =>
      [ConsoleLogged ("✅ Server is running at port: " +:+ port_to_string p)]
  | Returns false => []
  | Throws e => [ConsoleError "❌ Failed to start server:" e]
  end.

(** *** The multer storage *)

Module Multer.

(** newTerms.md, "The Destination Function":
    [cb(null, '/public/temp')]. *)
Definition destination : string := "/public/temp".

(** newTerms.md, "The Filename Function":
<<
    filename: function (req, file, cb) {
      const uniqueSuffix = Date.now() + '-' + Math.round(Math.random() * 1E9)
      cb(null, file.fieldname + '-' + uniqueSuffix)
    }
>>
    [now] is [Date.now()], [random] the integer
    [Math.round(Math.random() * 1E9)]; an integer below 1e21 prints in
    plain decimal.  The result is the name handed to [cb]. *)
Definition filename (fieldname : string) (now random : N) : string :=
  let uniqueSuffix := pretty now +:+ "-" +:+ pretty random in
  fieldname +:+ "-" +:+ uniqueSuffix.

End Multer.

(** Whether a character occurs in a string. *)
Fixpoint occurs (c : Ascii.ascii) (s : string) : bool :=
  match s with
  | EmptyString => false
  | String d rest => bool_decide (c = d) || occurs c rest
  end.

(** A string of decimal digits only. *)
Fixpoint digits (s : string) : bool :=
  match s with
  | EmptyString => true
  | String c rest => Standin.is_digit c && digits rest
  end.

(** ** Facts about strings and about the stand-ins *)

Lemma append_cons c (x y : string) : String c x +:+ y = String c (x +:+ y).
Proof. reflexivity. Qed.

Lemma append_assoc (x y z : string) : (x +:+ y) +:+ z = x +:+ y +:+ z.
Proof.
  induction x as [|c x IH]; [done|].
  rewrite !append_cons. by f_equal.
Qed.

Lemma prefix_append (x y : string) : String.prefix x (x +:+ y) = true.
Proof.
  induction x as [|c x IH].
  - by destruct y.
  - rewrite append_cons. simpl.
    destruct (Ascii.ascii_dec c c); [exact IH | congruence].
Qed.

Lemma prefix_inv (x h : string) :
  String.prefix x h = true → ∃ y, h = x +:+ y.
Proof.
  revert h. induction x as [|c x IH]; intros h Hp.
  - by exists h.
  - destruct h as [|d h]; simpl in Hp; [discriminate Hp|].
    destruct (Ascii.ascii_dec c d) as [->|]; [|discriminate Hp].
    destruct (IH _ Hp) as [y ->]. by exists y.
Qed.

Lemma standin_bcrypt_hashes_strings : bcrypt_hashes_strings Standin.bcrypt.
Proof. intros p r salt _. by eexists. Qed.

Lemma standin_bcrypt_compare_accepts : bcrypt_compare_accepts Standin.bcrypt.
Proof.
  intros p r salt h [= <-]. simpl.
  by rewrite <- append_assoc, prefix_append.
Qed.

Lemma standin_bcrypt_compare_decides : bcrypt_compare_decides Standin.bcrypt.
Proof.
  intros a h. eexists; split; [done|]. split.
  - intros [y ->]%prefix_inv. exists 10%nat, y. simpl.
    by rewrite append_assoc.
  - intros (r & salt & [= <-]). by rewrite <- append_assoc, prefix_append.
Qed.

Lemma standin_bcrypt_salt_embedded : bcrypt_salt_embedded Standin.bcrypt.
Proof.
  intros p r s1 s2 h1 h2 [= <-] [= <-] Hne Heq. apply Hne.
  by apply (inj (String.append "$")), (inj (String.append p)).
Qed.

Lemma standin_jwt_sign_requires_secret : jwt_sign_requires_secret Standin.jwt.
Proof. intros payload key expiresIn now Hk. simpl. by rewrite Hk. Qed.

Lemma standin_jwt_sign_succeeds :
  jwt_sign_succeeds Standin.jwt Standin.timespan.
Proof.
  intros payload k expiresIn now Hk Hts. simpl.
  rewrite bool_decide_eq_false_2 by done. simpl.
  apply bool_decide_eq_true_1 in Hts as [ttl ->]. by eexists.
Qed.

Lemma standin_jwt_verify_own_key : jwt_verify_own_key Standin.jwt.
Proof.
  intros payload k expiresIn now t Hs. simpl in *.
  destruct (negb _); [discriminate|].
  destruct (Standin.seconds expiresIn); [|discriminate].
  injection Hs as <-. simpl. rewrite decide_True by done. by eexists.
Qed.

Lemma standin_jwt_verify_other_key : jwt_verify_other_key Standin.jwt.
Proof.
  intros payload k k' expiresIn now t Hs Hne. simpl in *.
  destruct (negb _); [discriminate|].
  destruct (Standin.seconds expiresIn); [|discriminate].
  injection Hs as <-. simpl. by rewrite decide_False.
Qed.

(** ** Calls made during a run *)

Lemma calls_between_app (w w' : World) (l : list call) :
  trace w' = trace w ++ l → calls_between w w' = l.
Proof. intros Ht. unfold calls_between. rewrite Ht. apply drop_app_length. Qed.


(** ** Documents *)

Lemma get_assign (path : string) (v : value) (this : Document) :
  get (assign path v this) path = v.
Proof.
  unfold assign. case_decide as Hv; [done|].
  unfold get. simpl. by rewrite lookup_insert_eq.
Qed.

Lemma get_assign_ne (path path' : string) (v : value) (this : Document) :
  path ≠ path' → get (assign path v this) path' = get this path'.
Proof.
  intros Hne. unfold assign. case_decide; [done|].
  unfold get. simpl. by rewrite lookup_insert_ne.
Qed.

Lemma isModified_assign_ne (path path' : string) (v : value) (this : Document) :
  path ≠ path' →
  isModified path' (assign path v this) = isModified path' this.
Proof.
  intros Hne. unfold assign. case_decide; [done|].
  unfold isModified. simpl. apply bool_decide_ext.
  rewrite elem_of_union, elem_of_singleton.
  split; [intros [Heq|Hin]; [congruence | done] | by right].
Qed.

Lemma get_persisted (this : Document) (path : string) :
  get (persisted this) path = get this path.
Proof. reflexivity. Qed.

(** ** The pre-save hook, case by case *)

Section PreSave.
Context (B : BcryptLib).

Lemma pre_save_unmodified (this : Document) (w : World) :
  isModified "Password" this = false →
  userSchema_pre_save B this w = (Returns this, log Next w).
Proof. intros Hm. unfold userSchema_pre_save. by rewrite Hm. Qed.

Lemma pre_save_modified (this : Document) (w : World) (h : string) :
  isModified "Password" this = true →
  bcrypt_hash B (get this "Password") 10 (rand w (drawn w)) = Returns h →
  userSchema_pre_save B this w =
    (Returns (assign "Password" (VString h) this),
     log Next (draw (log (BcryptHash (get this "Password") 10) w))).
Proof.
  intros Hm Hh. unfold userSchema_pre_save. rewrite Hm. simpl.
  unfold mbind, JS_bind, bcrypt_hash_call. by rewrite Hh.
Qed.

Lemma pre_save_hash_throws (this : Document) (w : World) (e : Error) :
  isModified "Password" this = true →
  bcrypt_hash B (get this "Password") 10 (rand w (drawn w)) = Throws e →
  userSchema_pre_save B this w =
    (Throws e, draw (log (BcryptHash (get this "Password") 10) w)).
Proof.
  intros Hm Hh. unfold userSchema_pre_save. rewrite Hm. simpl.
  unfold mbind, JS_bind, bcrypt_hash_call. by rewrite Hh.
Qed.

Lemma comparePassword_run (attempt : value) (this : Document) (w : World) :
  comparePassword B attempt this w =
    (bcrypt_compare B attempt (get this "Password"),
     log (BcryptCompare attempt (get this "Password")) w).
Proof. reflexivity. Qed.

End PreSave.

(** ** When the hook hashes *)

Section Rehash.
Context (B : BcryptLib).



End Rehash.

(** ** Token issuance *)

Section Issuance.
Context (J : JwtLib).

Lemma generateAccessToken_run (this : Document) (w : World) (expiresIn : value) :
  scope w !! "JWT_ACCESS_TOKEN_EXPIRY" = Some expiresIn →
  generateAccessToken J this w =
    (jwt_sign J (identity_claims this)
       (env_value w "JWT_ACCESS_TOKEN_SECRET") expiresIn (clock w),
     log (JwtSign (identity_claims this)
            (env_value w "JWT_ACCESS_TOKEN_SECRET") expiresIn) w).
Proof.
  intros Hs. unfold generateAccessToken, mbind, JS_bind, process_env, ident.
  by rewrite Hs.
Qed.

Lemma generateRefreshToken_run (this : Document) (w : World) (expiresIn : value) :
  scope w !! "JWT_REFRESH_TOKEN_EXPIRY" = Some expiresIn →
  generateRefreshToken J this w =
    (jwt_sign J (identity_claims this)
       (env_value w "JWT_REFRESH_TOKEN_SECRET") expiresIn (clock w),
     log (JwtSign (identity_claims this)
            (env_value w "JWT_REFRESH_TOKEN_SECRET") expiresIn) w).
Proof.
  intros Hs. unfold generateRefreshToken, mbind, JS_bind, process_env, ident.
  by rewrite Hs.
Qed.

Lemma generateAccessToken_unbound (this : Document) (w : World) :
  scope w !! "JWT_ACCESS_TOKEN_EXPIRY" = None →
  generateAccessToken J this w =
    (Throws (ReferenceError "JWT_ACCESS_TOKEN_EXPIRY"), w).
Proof.
  intros Hs. unfold generateAccessToken, mbind, JS_bind, process_env, ident.
  by rewrite Hs.
Qed.

Lemma env_value_Some (w : World) (name s : string) :
  env w !! name = Some s → env_value w name = VString s.
Proof. intros He. unfold env_value. by rewrite He. Qed.

Lemma env_value_None (w : World) (name : string) :
  env w !! name = None → env_value w name = VUndefined.
Proof. intros He. unfold env_value. by rewrite He. Qed.

End Issuance.

(** ** The upload helper *)

Section Upload.
Context (C : CloudinaryLib).

Lemma truthy_path (p : string) : p ≠ "" → truthy (VString p) = true.
Proof. intros Hp. simpl. by rewrite bool_decide_eq_false_2. Qed.

(** The path of the [try] block when the upload resolves. *)
Lemma upload_resolved (p : string) (w : World) (uploadResult : object) :
  p ≠ "" →
  uploader_upload C (VString p) "auto" (files w) = Returns uploadResult →
  uploadonCloudinary C (VString p) w =
    (Returns response,
     log (ConsoleLog [VString "File is uploaded on cloudinary"; VUndefined])
       (log (UploaderUpload (VString p) "auto") w)).
Proof.
  intros Hp Hup. unfold uploadonCloudinary, try_catch.
  rewrite (truthy_path p Hp). simpl.
  unfold mbind, JS_bind, uploader_upload_call. by rewrite Hup.
Qed.

(** The path through the [catch] block when the upload rejects. *)
Lemma upload_rejected (p : string) (w : World) (error : Error) :
  p ≠ "" →
  uploader_upload C (VString p) "auto" (files w) = Throws error →
  uploadonCloudinary C (VString p) w =
    (fs_unlinkSync (VString p) ≫= λ _, mret VUndefined)
      (log (UploaderUpload (VString p) "auto") w).
Proof.
  intros Hp Hup. unfold uploadonCloudinary, try_catch.
  rewrite (truthy_path p Hp). simpl.
  unfold mbind at 1. unfold JS_bind at 1. unfold uploader_upload_call.
  by rewrite Hup.
Qed.

End Upload.

(** ** The scenarios of the specification, run on the stand-ins *)

(** Registering with the secret "Sup3rSecret!": what is stored is not the
    plaintext, the plaintext verifies, "wrong" does not. *)
Example register_then_login :
  ∃ saved w1,
    userSchema_pre_save Standin.bcrypt Sample.registration Standin.boot
      = (Returns saved, w1) ∧
    get saved "Password" ≠ VString "Sup3rSecret!" ∧
    calls_between Standin.boot w1 = [BcryptHash (VString "Sup3rSecret!") 10; Next] ∧
    (comparePassword Standin.bcrypt (VString "Sup3rSecret!") saved w1).1
      = Returns true ∧
    (comparePassword Standin.bcrypt (VString "wrong") saved w1).1
      = Returns false.
Proof.
  eexists _, _. split; [vm_compute; reflexivity|].
  split; [vm_compute; discriminate|].
  repeat split; vm_compute; reflexivity.
Qed.

(** Updating only the email of a stored account: the hook makes no call
    of [bcrypt.hash] and the stored hash stays as it is. *)
Example email_update_keeps_hash :
  let stored := persisted (assign "Password"
                  (VString "Sup3rSecret!$N9qo8uLOickgx2ZMRZoMye")
                  Sample.registration) in
  let edited := assign "email" (VString "tushar@example.org") stored in
  isModified "email" edited = true ∧
  userSchema_pre_save Standin.bcrypt edited Standin.boot
    = (Returns edited, log Next Standin.boot) ∧
  get edited "Password" = VString "Sup3rSecret!$N9qo8uLOickgx2ZMRZoMye".
Proof.
  intros stored edited. split; [vm_compute; reflexivity|]. split.
  - apply pre_save_unmodified. vm_compute. reflexivity.
  - vm_compute. reflexivity.
Qed.

(** Uploading with no path given: [null], and no library is called. *)
Example upload_without_path :
  uploadonCloudinary Standin.cloudinary VUndefined Standin.boot
    = (Returns VNull, Standin.boot) ∧
  uploadonCloudinary Standin.cloudinary (VString "") Standin.boot
    = (Returns VNull, Standin.boot).
Proof. split; reflexivity. Qed.

(** ** The claims *)

(** C1.  Verifying a plaintext against the hash the pre-save hook stored
    for it succeeds: when a document whose [Password] was set to the
    string [p] is saved, the hook ends by calling [next], and from then on
    [comparePassword(p)] on the saved document resolves to [true],
    whenever it is called. *)
Theorem saved_password_verifies (B : BcryptLib) (this : Document)
    (p : string) (w : World) :
  bcrypt_hashes_strings B →
  bcrypt_compare_accepts B →
  isModified "Password" this = true →
  get this "Password" = VString p →
  ∃ saved w1,
    userSchema_pre_save B this w = (Returns saved, w1) ∧
    ∀ w', (comparePassword B (VString p) (persisted saved) w').1 = Returns true.
Proof.
  intros Htotal Haccepts Hm Hp.
  destruct (Htotal p 10%nat (rand w (drawn w))) as [h Hh]; [lia|].
  eexists _, _. split.
  - apply (pre_save_modified B this w h Hm). by rewrite Hp.
  - intros w'. rewrite comparePassword_run, get_persisted, get_assign. simpl.
    by eapply Haccepts.
Qed.

Lemma saved_password_verifies_witness :
  ∃ saved w1,
    userSchema_pre_save Standin.bcrypt Sample.registration Standin.boot
      = (Returns saved, w1) ∧
    ∀ w', (comparePassword Standin.bcrypt (VString "Sup3rSecret!")
             (persisted saved) w').1 = Returns true.
Proof.
  apply (saved_password_verifies Standin.bcrypt Sample.registration
           "Sup3rSecret!" Standin.boot).
  - exact standin_bcrypt_hashes_strings.
  - exact standin_bcrypt_compare_accepts.
  - vm_compute. reflexivity.
  - vm_compute. reflexivity.
Defined.




(** C3.  [generateAccessToken] builds a payload of exactly the four
    entries [_id], [username], [email], [fullName] of the document, signs
    it with the access-token secret, the value of
    [process.env.JWT_ACCESS_TOKEN_SECRET], and passes the configured
    access-token lifetime as [expiresIn]: its result is the result of that
    one call of [jwt.sign]. *)
Theorem access_token_signs_identity_claims (J : JwtLib) (this : Document)
    (w : World) (secret : string) (expiresIn : value) :
  env w !! "JWT_ACCESS_TOKEN_SECRET" = Some secret →
  scope w !! "JWT_ACCESS_TOKEN_EXPIRY" = Some expiresIn →
  let payload := [("_id", get this "_id"); ("username", get this "username");
                  ("email", get this "email"); ("fullName", get this "fullName")] in
  generateAccessToken J this w =
    (jwt_sign J payload (VString secret) expiresIn (clock w),
     log (JwtSign payload (VString secret) expiresIn) w) ∧
  payload.*1 = ["_id"; "username"; "email"; "fullName"].
Proof.
  intros He Hs payload. split; [|done].
  rewrite (generateAccessToken_run J this w expiresIn Hs).
  by rewrite (env_value_Some w _ secret He).
Qed.

Lemma access_token_signs_identity_claims_witness :
  let payload := [("_id", VString "65f1c0ffee0ddba11deadbee");
                  ("username", VString "tushar");
                  ("email", VString "tushar@example.com");
                  ("fullName", VString "Tushar P")] in
  generateAccessToken Standin.jwt Sample.registration Deployed.world =
    (jwt_sign Standin.jwt payload (VString "access-secret") (VString "15m")
       (clock Deployed.world),
     log (JwtSign payload (VString "access-secret") (VString "15m"))
       Deployed.world) ∧
  payload.*1 = ["_id"; "username"; "email"; "fullName"].
Proof.
  apply (access_token_signs_identity_claims Standin.jwt Sample.registration
           Deployed.world "access-secret" (VString "15m")).
  - vm_compute. reflexivity.
  - vm_compute. reflexivity.
Defined.

(** C4.  The access token and the refresh token are signed with two
    secrets: with the two environment variables set to different,
    non-empty keys, both generators return a token; each token verifies
    under its own secret and the claims it yields contain the user's
    identifier; and verifying the access token with the refresh secret,
    or the refresh token with the access secret, fails the signature
    check. *)
Theorem tokens_verify_under_own_secret_only (J : JwtLib)
    (timespan : value → bool) (this : Document) (w : World)
    (id access_secret refresh_secret : string)
    (access_expiry refresh_expiry : value) :
  jwt_sign_succeeds J timespan →
  jwt_verify_own_key J →
  jwt_verify_other_key J →
  get this "_id" = VString id →
  env w !! "JWT_ACCESS_TOKEN_SECRET" = Some access_secret →
  env w !! "JWT_REFRESH_TOKEN_SECRET" = Some refresh_secret →
  access_secret ≠ "" → refresh_secret ≠ "" →
  access_secret ≠ refresh_secret →
  scope w !! "JWT_ACCESS_TOKEN_EXPIRY" = Some access_expiry →
  scope w !! "JWT_REFRESH_TOKEN_EXPIRY" = Some refresh_expiry →
  timespan access_expiry = true → timespan refresh_expiry = true →
  ∃ access w1 refresh w2,
    generateAccessToken J this w = (Returns access, w1) ∧
    generateRefreshToken J this w1 = (Returns refresh, w2) ∧
    (∃ claims, jwt_verify J access (VString access_secret) = Returns claims ∧
               ("_id", VString id) ∈ claims) ∧
    (∃ claims, jwt_verify J refresh (VString refresh_secret) = Returns claims ∧
               ("_id", VString id) ∈ claims) ∧
    jwt_verify J access (VString refresh_secret) = Throws invalid_signature ∧
    jwt_verify J refresh (VString access_secret) = Throws invalid_signature.
Proof.
  intros Hsign Hown Hother Hid Hka Hkr Hnea Hner Hne Hea Her Hta Htr.
  destruct (Hsign (identity_claims this) access_secret access_expiry (clock w)
              Hnea Hta) as [access Ha].
  destruct (Hsign (identity_claims this) refresh_secret refresh_expiry (clock w)
              Hner Htr) as [refresh Hr].
  assert (("_id", VString id) ∈ identity_claims this) as Hin.
  { unfold identity_claims. rewrite Hid. apply list_elem_of_here. }
  exists access, (log (JwtSign (identity_claims this) (VString access_secret)
                         access_expiry) w), refresh.
  eexists. split; [|split; [|split; [|split; [|split]]]].
  - rewrite (generateAccessToken_run J this w access_expiry Hea).
    by rewrite (env_value_Some w _ access_secret Hka), Ha.
  - rewrite (generateRefreshToken_run J this
               (log (JwtSign (identity_claims this) (VString access_secret)
                       access_expiry) w) refresh_expiry Her).
    rewrite (env_value_Some (log _ w) _ refresh_secret Hkr). simpl.
    by rewrite Hr.
  - destruct (Hown _ _ _ _ _ Ha) as (claims & Hv & Hc). eauto.
  - destruct (Hown _ _ _ _ _ Hr) as (claims & Hv & Hc). eauto.
  - by apply (Hother _ _ _ _ _ _ Ha).
  - by apply (Hother _ _ _ _ _ _ Hr).
Qed.

Lemma tokens_verify_under_own_secret_only_witness :
  ∃ access w1 refresh w2,
    generateAccessToken Standin.jwt Sample.registration Deployed.world
      = (Returns access, w1) ∧
    generateRefreshToken Standin.jwt Sample.registration w1
      = (Returns refresh, w2) ∧
    (∃ claims, jwt_verify Standin.jwt access (VString "access-secret")
                 = Returns claims ∧
               ("_id", VString "65f1c0ffee0ddba11deadbee") ∈ claims) ∧
    (∃ claims, jwt_verify Standin.jwt refresh (VString "refresh-secret")
                 = Returns claims ∧
               ("_id", VString "65f1c0ffee0ddba11deadbee") ∈ claims) ∧
    jwt_verify Standin.jwt access (VString "refresh-secret")
      = Throws invalid_signature ∧
    jwt_verify Standin.jwt refresh (VString "access-secret")
      = Throws invalid_signature.
Proof.
  apply (tokens_verify_under_own_secret_only Standin.jwt Standin.timespan
           Sample.registration Deployed.world
           "65f1c0ffee0ddba11deadbee" "access-secret" "refresh-secret"
           (VString "15m") (VString "7d")).
  - exact standin_jwt_sign_succeeds.
  - exact standin_jwt_verify_own_key.
  - exact standin_jwt_verify_other_key.
  - vm_compute. reflexivity.
  - vm_compute. reflexivity.
  - vm_compute. reflexivity.
  - discriminate.
  - discriminate.
  - discriminate.
  - vm_compute. reflexivity.
  - vm_compute. reflexivity.
  - vm_compute. reflexivity.
  - vm_compute. reflexivity.
Defined.

(** C5, as stated, fails: with no access-token secret in the environment
    the call does throw, but what it throws is the plain [Error] of
    [jwt.sign], not a ConfigurationError. *)
Lemma missing_secret_no_ConfigurationError :
  env Deployed.without_access_secret !! "JWT_ACCESS_TOKEN_SECRET" = None ∧
  ¬ fails_with "ConfigurationError"
      (generateAccessToken Standin.jwt Sample.registration
         Deployed.without_access_secret).1.
Proof.
  split; [vm_compute; reflexivity|].
  intros (e & He & Hname).
  rewrite (generateAccessToken_run Standin.jwt _ _ (VString "15m")) in He
    by (vm_compute; reflexivity).
  vm_compute in He. injection He as <-. discriminate Hname.
Qed.

(** C5, amended.  If the access-token secret is absent from the
    environment at call time, [generateAccessToken] fails closed: it
    throws and returns no token.  When the lifetime is configured, the
    error is the one [jwt.sign] throws for a missing key, a plain [Error]
    "secretOrPrivateKey must have a value". *)
Theorem missing_secret_fails_closed (J : JwtLib) (this : Document) (w : World) :
  jwt_sign_requires_secret J →
  env w !! "JWT_ACCESS_TOKEN_SECRET" = None →
  ∃ e, (generateAccessToken J this w).1 = Throws e ∧
       (is_Some (scope w !! "JWT_ACCESS_TOKEN_EXPIRY") →
        e = secretOrPrivateKey_required ∧ err_name e = "Error").
Proof.
  intros Hreq He.
  destruct (scope w !! "JWT_ACCESS_TOKEN_EXPIRY") as [expiresIn|] eqn:Hs.
  - exists secretOrPrivateKey_required.
    rewrite (generateAccessToken_run J this w expiresIn Hs).
    rewrite (env_value_None w _ He). simpl. split; [by apply Hreq | done].
  - exists (ReferenceError "JWT_ACCESS_TOKEN_EXPIRY").
    rewrite (generateAccessToken_unbound J this w Hs). simpl.
    split; [done|]. by intros [? [=]].
Qed.

Lemma missing_secret_fails_closed_witness :
  ∃ e, (generateAccessToken Standin.jwt Sample.registration
          Deployed.without_access_secret).1 = Throws e ∧
       (is_Some (scope Deployed.without_access_secret
                   !! "JWT_ACCESS_TOKEN_EXPIRY") →
        e = secretOrPrivateKey_required ∧ err_name e = "Error").
Proof.
  apply (missing_secret_fails_closed Standin.jwt Sample.registration
           Deployed.without_access_secret).
  - exact standin_jwt_sign_requires_secret.
  - vm_compute. reflexivity.
Defined.




(** C7.  Hashing the same plaintext twice gives two different stored
    strings that both verify: two saves, one after the other, of
    documents whose [Password] was set to the same string [p] store two
    different hashes when the two salts drawn differ, and
    [comparePassword(p)] resolves to [true] on both saved documents. *)
Theorem same_plaintext_two_hashes (B : BcryptLib) (this1 this2 : Document)
    (p : string) (w : World) :
  bcrypt_hashes_strings B →
  bcrypt_compare_accepts B →
  bcrypt_salt_embedded B →
  isModified "Password" this1 = true → get this1 "Password" = VString p →
  isModified "Password" this2 = true → get this2 "Password" = VString p →
  rand w (drawn w) ≠ rand w (S (drawn w)) →
  ∃ saved1 w1 saved2 w2 h1 h2,
    userSchema_pre_save B this1 w = (Returns saved1, w1) ∧
    userSchema_pre_save B this2 w1 = (Returns saved2, w2) ∧
    get saved1 "Password" = VString h1 ∧
    get saved2 "Password" = VString h2 ∧
    h1 ≠ h2 ∧
    (∀ w', (comparePassword B (VString p) (persisted saved1) w').1
             = Returns true) ∧
    (∀ w', (comparePassword B (VString p) (persisted saved2) w').1
             = Returns true).
Proof.
  intros Htotal Haccepts Hsalt Hm1 Hp1 Hm2 Hp2 Hrand.
  destruct (Htotal p 10%nat (rand w (drawn w))) as [h1 Hh1]; [lia|].
  destruct (Htotal p 10%nat (rand w (S (drawn w)))) as [h2 Hh2]; [lia|].
  eexists _, _, _, _, h1, h2. split; [|split].
  - apply (pre_save_modified B this1 w h1 Hm1). by rewrite Hp1.
  - apply (pre_save_modified B this2 _ h2 Hm2). by rewrite Hp2.
  - repeat split.
    + apply get_assign.
    + apply get_assign.
    + by eapply Hsalt.
    + intros w'. rewrite comparePassword_run, get_persisted, get_assign.
      simpl. by eapply Haccepts.
    + intros w'. rewrite comparePassword_run, get_persisted, get_assign.
      simpl. by eapply Haccepts.
Qed.

Lemma same_plaintext_two_hashes_witness :
  ∃ saved1 w1 saved2 w2 h1 h2,
    userSchema_pre_save Standin.bcrypt Sample.registration Standin.boot
      = (Returns saved1, w1) ∧
    userSchema_pre_save Standin.bcrypt Sample.registration w1
      = (Returns saved2, w2) ∧
    get saved1 "Password" = VString h1 ∧
    get saved2 "Password" = VString h2 ∧
    h1 ≠ h2 ∧
    (∀ w', (comparePassword Standin.bcrypt (VString "Sup3rSecret!")
              (persisted saved1) w').1 = Returns true) ∧
    (∀ w', (comparePassword Standin.bcrypt (VString "Sup3rSecret!")
              (persisted saved2) w').1 = Returns true).
Proof.
  apply (same_plaintext_two_hashes Standin.bcrypt Sample.registration
           Sample.registration "Sup3rSecret!" Standin.boot).
  - exact standin_bcrypt_hashes_strings.
  - exact standin_bcrypt_compare_accepts.
  - exact standin_bcrypt_salt_embedded.
  - vm_compute. reflexivity.
  - vm_compute. reflexivity.
  - vm_compute. reflexivity.
  - vm_compute. reflexivity.
  - vm_compute. discriminate.
Defined.

(** C8, as stated, fails: on a document read without its password the
    stored hash is [undefined], [bcrypt.compare] rejects, and
    [comparePassword], which has no [try], rejects with it instead of
    resolving to [false]. *)
Lemma comparePassword_rejects_without_hash :
  get Sample.without_password "Password" = VUndefined ∧
  ¬ resolves (comparePassword Standin.bcrypt (VString "Sup3rSecret!")
                Sample.without_password Standin.boot).1.
Proof.
  split; [vm_compute; reflexivity|].
  intros [b Hb]. rewrite comparePassword_run in Hb. vm_compute in Hb.
  discriminate Hb.
Qed.

(** C8, amended.  [comparePassword] ends the way [bcrypt.compare] ends on
    the attempt and the stored hash.  For a string attempt against a
    stored string it resolves to a boolean, [true] exactly when the
    attempt matches (the stored string is a bcrypt hash of it) and [false]
    otherwise, for a wrong password and for a string that is no hash
    alike.  When [bcrypt.compare] rejects, the error reaches the caller. *)
Theorem comparePassword_ends_as_bcrypt_compare (B : BcryptLib) :
  bcrypt_compare_decides B →
  (∀ (a h : string) this w,
     get this "Password" = VString h →
     ∃ b : bool,
       (comparePassword B (VString a) this w).1 = Returns b ∧
       (b = true ↔ ∃ r salt, bcrypt_hash B (VString a) r salt = Returns h)) ∧
  (∀ attempt this w e,
     bcrypt_compare B attempt (get this "Password") = Throws e →
     (comparePassword B attempt this w).1 = Throws e).
Proof.
  intros Hdec. split.
  - intros a h this w Hh. destruct (Hdec a h) as (b & Hb & Hiff).
    exists b. rewrite comparePassword_run, Hh. by split.
  - intros attempt this w e He. by rewrite comparePassword_run.
Qed.

Lemma comparePassword_ends_as_bcrypt_compare_witness :
  (∀ (a h : string) this w,
     get this "Password" = VString h →
     ∃ b : bool,
       (comparePassword Standin.bcrypt (VString a) this w).1 = Returns b ∧
       (b = true ↔
        ∃ r salt, bcrypt_hash Standin.bcrypt (VString a) r salt = Returns h)) ∧
  (∀ attempt this w e,
     bcrypt_compare Standin.bcrypt attempt (get this "Password") = Throws e →
     (comparePassword Standin.bcrypt attempt this w).1 = Throws e).
Proof.
  apply (comparePassword_ends_as_bcrypt_compare Standin.bcrypt).
  exact standin_bcrypt_compare_decides.
Defined.

(** C9, on the code.  A file that exists is uploaded: Cloudinary answers
    with an object that has the remote [url]; what [uploadonCloudinary]
    returns is not that object but [response], the object imported from
    express, which has no [url]. *)
Theorem upload_returns_express_response :
  let w := with_files {[ Sample.avatar ]} Standin.boot in
  ∃ uploadResult,
    uploader_upload Standin.cloudinary (VString Sample.avatar) "auto" (files w)
      = Returns uploadResult ∧
    get_prop (VObject uploadResult) "url"
      = VString "http://res.cloudinary.com/demo/public/temp/avatar.png" ∧
    (uploadonCloudinary Standin.cloudinary (VString Sample.avatar) w).1
      = Returns response ∧
    response ≠ VObject uploadResult ∧
    get_prop response "url" = VUndefined.
Proof.
  intros w. eexists. split; [vm_compute; reflexivity|].
  split; [vm_compute; reflexivity|]. split; [|split].
  - erewrite upload_resolved; [done | done | vm_compute; reflexivity].
  - discriminate.
  - vm_compute. reflexivity.
Qed.

(** C10, as stated, fails: the upload of a path with no file behind it
    rejects, [fs.unlinkSync] in the [catch] block throws in its turn, and
    the caller gets that error, not [undefined]. *)
Lemma failed_upload_of_missing_file_throws :
  uploader_upload Standin.cloudinary (VString Sample.avatar) "auto"
    (files Standin.boot) = Throws (ENOENT "open" Sample.avatar) ∧
  (uploadonCloudinary Standin.cloudinary (VString Sample.avatar)
     Standin.boot).1 ≠ Returns VUndefined.
Proof.
  split; [vm_compute; reflexivity|].
  erewrite upload_rejected; [|done|vm_compute; reflexivity].
  vm_compute. discriminate.
Qed.

(** C10, amended.  If the Cloudinary upload throws for a [localfilepath]
    at which a local file exists, [uploadonCloudinary] deletes that file
    with [fs.unlinkSync] and returns [undefined]: the error of the upload
    is swallowed in the [catch] block, nothing is logged, and nothing is
    thrown to the caller. *)
Theorem failed_upload_unlinks_and_returns_undefined (C : CloudinaryLib)
    (localfilepath : string) (w : World) (error : Error) :
  localfilepath ≠ "" →
  uploader_upload C (VString localfilepath) "auto" (files w) = Throws error →
  localfilepath ∈ files w →
  ∃ w',
    uploadonCloudinary C (VString localfilepath) w = (Returns VUndefined, w') ∧
    files w' = files w ∖ {[ localfilepath ]} ∧
    (localfilepath ∉ files w') ∧
    calls_between w w' = [UploaderUpload (VString localfilepath) "auto";
                          FsUnlinkSync (VString localfilepath)].
Proof.
  intros Hp Hup Hin. eexists. split; [|split; [|split]].
  - rewrite (upload_rejected C localfilepath w error Hp Hup).
    unfold mbind, JS_bind, fs_unlinkSync. simpl.
    rewrite decide_True by done. reflexivity.
  - reflexivity.
  - intros [_ Hn]%elem_of_difference. apply Hn. by apply elem_of_singleton.
  - apply calls_between_app. simpl. by rewrite <- app_assoc.
Qed.

Lemma failed_upload_unlinks_and_returns_undefined_witness :
  let w := with_files {[ Sample.avatar ]} Standin.boot in
  ∃ w',
    uploadonCloudinary Standin.cloudinary_unreachable (VString Sample.avatar) w
      = (Returns VUndefined, w') ∧
    files w' = files w ∖ {[ Sample.avatar ]} ∧
    (Sample.avatar ∉ files w') ∧
    calls_between w w' = [UploaderUpload (VString Sample.avatar) "auto";
                          FsUnlinkSync (VString Sample.avatar)].
Proof.
  intros w.
  apply (failed_upload_unlinks_and_returns_undefined
           Standin.cloudinary_unreachable Sample.avatar w
           (mkError "Error" "getaddrinfo ENOTFOUND api.cloudinary.com")).
  - discriminate.
  - reflexivity.
  - vm_compute. reflexivity.
Defined.


(** ** Further properties of the code *)

(** *** The pre-save hook *)

(** X1.  When [bcrypt.hash] rejects, the hook rejects with the same error
    and never calls [next]: the save does not go on with the password as
    it was given. *)
Theorem failed_hash_aborts_save (B : BcryptLib) (this : Document) (w : World)
    (e : Error) :
  isModified "Password" this = true →
  bcrypt_hash B (get this "Password") 10 (rand w (drawn w)) = Throws e →
  (userSchema_pre_save B this w).1 = Throws e ∧
  Next ∉ calls_between w (userSchema_pre_save B this w).2.
Proof.
  intros Hm Hh. rewrite (pre_save_hash_throws B this w e Hm Hh). simpl.
  split; [done|].
  rewrite (calls_between_app w _ [BcryptHash (get this "Password") 10])
    by done.
  intros Hin. apply list_elem_of_singleton in Hin. discriminate Hin.
Qed.

Lemma failed_hash_aborts_save_witness :
  let this := assign "Password" VNull Sample.registration in
  (userSchema_pre_save Standin.bcrypt this Standin.boot).1
    = Throws Standin.bcrypt_hash_arguments_required ∧
  Next ∉ calls_between Standin.boot
           (userSchema_pre_save Standin.bcrypt this Standin.boot).2.
Proof.
  intros this.
  apply (failed_hash_aborts_save Standin.bcrypt this Standin.boot
           Standin.bcrypt_hash_arguments_required).
  - vm_compute. reflexivity.
  - vm_compute. reflexivity.
Defined.

(** X2.  The hook touches no path but [Password]: when it ends by calling
    [next], every other path of the document has the value it had, and
    is modified exactly if it was. *)
Theorem hook_touches_only_password (B : BcryptLib) (this saved : Document)
    (w w' : World) (path : string) :
  userSchema_pre_save B this w = (Returns saved, w') →
  path ≠ "Password" →
  get saved path = get this path ∧
  isModified path saved = isModified path this.
Proof.
  intros Hrun Hne.
  destruct (isModified "Password" this) eqn:Hm.
  - destruct (bcrypt_hash B (get this "Password") 10 (rand w (drawn w)))
      as [h|e] eqn:Hh.
    + rewrite (pre_save_modified B this w h Hm Hh) in Hrun.
      injection Hrun as <- _. split.
      * apply get_assign_ne. congruence.
      * apply isModified_assign_ne. congruence.
    + rewrite (pre_save_hash_throws B this w e Hm Hh) in Hrun.
      discriminate Hrun.
  - rewrite (pre_save_unmodified B this w Hm) in Hrun.
    by injection Hrun as <- _.
Qed.

Lemma hook_touches_only_password_witness :
  let saved := assign "Password"
                 (VString "Sup3rSecret!$N9qo8uLOickgx2ZMRZoMye")
                 Sample.registration in
  get saved "email" = get Sample.registration "email" ∧
  isModified "email" saved = isModified "email" Sample.registration.
Proof.
  intros saved.
  apply (hook_touches_only_password Standin.bcrypt Sample.registration saved
           Standin.boot
           (log Next (draw (log (BcryptHash (VString "Sup3rSecret!") 10)
                              Standin.boot)))).
  - vm_compute. reflexivity.
  - discriminate.
Defined.

(** *** Token issuance *)

Lemma generateRefreshToken_unbound (J : JwtLib) (this : Document) (w : World) :
  scope w !! "JWT_REFRESH_TOKEN_EXPIRY" = None →
  generateRefreshToken J this w =
    (Throws (ReferenceError "JWT_REFRESH_TOKEN_EXPIRY"), w).
Proof.
  intros Hs. unfold generateRefreshToken, mbind, JS_bind, process_env, ident.
  by rewrite Hs.
Qed.

(** X3.  A token depends on the document through [_id], [username],
    [email] and [fullName] only: two documents that agree on these four
    paths get the same access token and the same refresh token, whatever
    their [Password] or any other path holds. *)
Theorem tokens_depend_on_identity_only (J : JwtLib) (this this' : Document)
    (w : World) :
  get this "_id" = get this' "_id" →
  get this "username" = get this' "username" →
  get this "email" = get this' "email" →
  get this "fullName" = get this' "fullName" →
  generateAccessToken J this w = generateAccessToken J this' w ∧
  generateRefreshToken J this w = generateRefreshToken J this' w.
Proof.
  intros Hid Hu He Hf. unfold generateAccessToken, generateRefreshToken.
  by rewrite Hid, Hu, He, Hf.
Qed.

Lemma tokens_depend_on_identity_only_witness :
  let changed := assign "Password" (VString "An0therSecret!")
                   Sample.registration in
  generateAccessToken Standin.jwt Sample.registration Deployed.world
    = generateAccessToken Standin.jwt changed Deployed.world ∧
  generateRefreshToken Standin.jwt Sample.registration Deployed.world
    = generateRefreshToken Standin.jwt changed Deployed.world.
Proof.
  intros changed.
  apply (tokens_depend_on_identity_only Standin.jwt Sample.registration
           changed Deployed.world); vm_compute; reflexivity.
Defined.

(** X4.  With the expiry identifier unbound a generator throws a
    [ReferenceError] while it builds the options, before [jwt.sign] is
    called: the world, its trace of calls included, is as it was, and
    this is so even when the secret is configured. *)
Theorem unbound_expiry_throws_before_signing (J : JwtLib) (this : Document)
    (w : World) :
  (scope w !! "JWT_ACCESS_TOKEN_EXPIRY" = None →
   generateAccessToken J this w
     = (Throws (ReferenceError "JWT_ACCESS_TOKEN_EXPIRY"), w)) ∧
  (scope w !! "JWT_REFRESH_TOKEN_EXPIRY" = None →
   generateRefreshToken J this w
     = (Throws (ReferenceError "JWT_REFRESH_TOKEN_EXPIRY"), w)).
Proof.
  split.
  - apply generateAccessToken_unbound.
  - apply generateRefreshToken_unbound.
Qed.

Lemma unbound_expiry_throws_before_signing_witness :
  let w := configure {[ "JWT_ACCESS_TOKEN_SECRET" := "access-secret";
                        "JWT_REFRESH_TOKEN_SECRET" := "refresh-secret" ]}
             ∅ Standin.boot in
  generateAccessToken Standin.jwt Sample.registration w
    = (Throws (ReferenceError "JWT_ACCESS_TOKEN_EXPIRY"), w) ∧
  generateRefreshToken Standin.jwt Sample.registration w
    = (Throws (ReferenceError "JWT_REFRESH_TOKEN_EXPIRY"), w).
Proof.
  intros w.
  destruct (unbound_expiry_throws_before_signing Standin.jwt
              Sample.registration w) as [Ha Hr].
  split; [apply Ha | apply Hr]; vm_compute; reflexivity.
Defined.

(** X5.  A token is only ever issued under a configured secret: when a
    generator returns a token, its secret variable is set in the
    environment to a non-empty string and its expiry identifier is
    bound.  (An empty secret is falsy, and [jwt.sign] refuses it like a
    missing one.) *)
Theorem token_issued_only_under_secret (J : JwtLib) (this : Document)
    (w : World) :
  jwt_sign_requires_secret J →
  (∀ t w', generateAccessToken J this w = (Returns t, w') →
     (∃ k, env w !! "JWT_ACCESS_TOKEN_SECRET" = Some k ∧ k ≠ "") ∧
     is_Some (scope w !! "JWT_ACCESS_TOKEN_EXPIRY")) ∧
  (∀ t w', generateRefreshToken J this w = (Returns t, w') →
     (∃ k, env w !! "JWT_REFRESH_TOKEN_SECRET" = Some k ∧ k ≠ "") ∧
     is_Some (scope w !! "JWT_REFRESH_TOKEN_EXPIRY")).
Proof.
  intros Hreq. split; intros t w' Hrun.
  - destruct (scope w !! "JWT_ACCESS_TOKEN_EXPIRY") as [expiresIn|] eqn:Hs.
    + split; [|by eexists].
      rewrite (generateAccessToken_run J this w expiresIn Hs) in Hrun.
      unfold env_value in Hrun.
      destruct (env w !! "JWT_ACCESS_TOKEN_SECRET") as [k|] eqn:He.
      * exists k. split; [done|]. intros ->.
        rewrite Hreq in Hrun by done. discriminate Hrun.
      * rewrite Hreq in Hrun by done. discriminate Hrun.
    + rewrite (generateAccessToken_unbound J this w Hs) in Hrun.
      discriminate Hrun.
  - destruct (scope w !! "JWT_REFRESH_TOKEN_EXPIRY") as [expiresIn|] eqn:Hs.
    + split; [|by eexists].
      rewrite (generateRefreshToken_run J this w expiresIn Hs) in Hrun.
      unfold env_value in Hrun.
      destruct (env w !! "JWT_REFRESH_TOKEN_SECRET") as [k|] eqn:He.
      * exists k. split; [done|]. intros ->.
        rewrite Hreq in Hrun by done. discriminate Hrun.
      * rewrite Hreq in Hrun by done. discriminate Hrun.
    + rewrite (generateRefreshToken_unbound J this w Hs) in Hrun.
      discriminate Hrun.
Qed.

Lemma token_issued_only_under_secret_witness :
  (∀ t w', generateAccessToken Standin.jwt Sample.registration Deployed.world
             = (Returns t, w') →
     (∃ k, env Deployed.world !! "JWT_ACCESS_TOKEN_SECRET" = Some k ∧ k ≠ "") ∧
     is_Some (scope Deployed.world !! "JWT_ACCESS_TOKEN_EXPIRY")) ∧
  (∀ t w', generateRefreshToken Standin.jwt Sample.registration Deployed.world
             = (Returns t, w') →
     (∃ k, env Deployed.world !! "JWT_REFRESH_TOKEN_SECRET" = Some k ∧ k ≠ "") ∧
     is_Some (scope Deployed.world !! "JWT_REFRESH_TOKEN_EXPIRY")).
Proof.
  apply (token_issued_only_under_secret Standin.jwt Sample.registration
           Deployed.world).
  exact standin_jwt_sign_requires_secret.
Defined.

(** *** The upload helper, on every input *)

Section UploadCases.
Context (C : CloudinaryLib).

Lemma upload_falsy (v : value) (w : World) :
  truthy v = false → uploadonCloudinary C v w = (Returns VNull, w).
Proof. intros Hv. unfold uploadonCloudinary, try_catch. by rewrite Hv. Qed.

Lemma upload_resolved_any (v : value) (w : World) (uploadResult : object) :
  truthy v = true →
  uploader_upload C v "auto" (files w) = Returns uploadResult →
  uploadonCloudinary C v w =
    (Returns response,
     log (ConsoleLog [VString "File is uploaded on cloudinary"; VUndefined])
       (log (UploaderUpload v "auto") w)).
Proof.
  intros Hv Hup. unfold uploadonCloudinary, try_catch. rewrite Hv. simpl.
  unfold mbind, JS_bind, uploader_upload_call. by rewrite Hup.
Qed.

Lemma upload_rejected_any (v : value) (w : World) (error : Error) :
  truthy v = true →
  uploader_upload C v "auto" (files w) = Throws error →
  uploadonCloudinary C v w =
    (fs_unlinkSync v ≫= λ _, mret VUndefined)
      (log (UploaderUpload v "auto") w).
Proof.
  intros Hv Hup. unfold uploadonCloudinary, try_catch. rewrite Hv. simpl.
  unfold mbind at 1. unfold JS_bind at 1. unfold uploader_upload_call.
  by rewrite Hup.
Qed.

(** What [fs.unlinkSync] then a fall off the end does, case by case. *)
Lemma unlink_then_undefined (v : value) (w : World) :
  (fs_unlinkSync v ≫= λ _, mret VUndefined) w =
    match v with
    | VString p =>
        if decide (p ∈ files w)
        then (Returns VUndefined,
              with_files (files w ∖ {[p]}) (log (FsUnlinkSync v) w))
        else (Throws (ENOENT "unlink" p), log (FsUnlinkSync v) w)
    | _ => (Throws (ERR_INVALID_ARG_TYPE v), log (FsUnlinkSync v) w)
    end.
Proof.
  unfold mbind, JS_bind, fs_unlinkSync.
  destruct v as [| |b|p|o]; try reflexivity.
  by destruct (decide (p ∈ files w)).
Qed.

End UploadCases.

(** X6.  Cloudinary is contacted exactly when a path is given: for a
    falsy [localfilepath] ([undefined], [null], the empty string) the
    helper returns [null] and leaves the world, its trace included, as
    it was; for any other it calls [uploader.upload] with the path and
    [resource_type: 'auto']. *)
Theorem upload_called_iff_path_given (C : CloudinaryLib) (v : value)
    (w : World) :
  (truthy v = false → uploadonCloudinary C v w = (Returns VNull, w)) ∧
  (UploaderUpload v "auto" ∈ calls_between w (uploadonCloudinary C v w).2
   ↔ truthy v = true).
Proof.
  split; [apply upload_falsy|].
  destruct (truthy v) eqn:Hv.
  - split; [done|]. intros _.
    destruct (uploader_upload C v "auto" (files w)) as [r|e] eqn:Hup.
    + rewrite (upload_resolved_any C v w r Hv Hup). simpl.
      erewrite calls_between_app; [apply list_elem_of_here|].
      simpl. by rewrite <- app_assoc.
    + rewrite (upload_rejected_any C v w e Hv Hup), unlink_then_undefined.
      assert (∀ w', trace w' = (trace w ++ [UploaderUpload v "auto"])
                                 ++ [FsUnlinkSync v] →
                    UploaderUpload v "auto" ∈ calls_between w w') as Hin.
      { intros w' Ht. erewrite calls_between_app; [apply list_elem_of_here|].
        by rewrite Ht, <- app_assoc. }
      destruct v as [| |b|p|o]; try (by apply Hin).
      simpl. destruct (decide (p ∈ files w)); by apply Hin.
  - rewrite (upload_falsy C v w Hv). simpl. split; [|done].
    unfold calls_between. rewrite drop_all. by intros ?%elem_of_nil.
Qed.

(** X7.  What the helper gives back never comes from Cloudinary.  When
    it returns, it returns [null], the [response] of express or
    [undefined], never the upload result.  When it throws, the upload had
    thrown and what reaches the caller is the error [fs.unlinkSync] threw
    in the [catch] block, not the error of the upload passed on. *)
Theorem upload_outcomes (C : CloudinaryLib) (v : value) (w : World) :
  match (uploadonCloudinary C v w).1 with
  | Returns r => r = VNull ∨ r = response ∨ r = VUndefined
  | Throws e =>
      ∃ error,
        uploader_upload C v "auto" (files w) = Throws error ∧
        (fs_unlinkSync v (log (UploaderUpload v "auto") w)).1 = Throws e
  end.
Proof.
  destruct (truthy v) eqn:Hv.
  - destruct (uploader_upload C v "auto" (files w)) as [r|error] eqn:Hup.
    + rewrite (upload_resolved_any C v w r Hv Hup). simpl. auto.
    + rewrite (upload_rejected_any C v w error Hv Hup).
      unfold mbind, JS_bind.
      destruct (fs_unlinkSync v (log (UploaderUpload v "auto") w))
        as [[[]|e] w'] eqn:Hunlink; simpl; [auto|].
      by exists error.
  - rewrite (upload_falsy C v w Hv). simpl. auto.
Qed.

(** X8.  The helper creates no file and removes none but the one at
    [localfilepath]: a path on disk afterwards was there before, and a
    path on disk before that is not [localfilepath] is there afterwards. *)
Theorem upload_disk_frame (C : CloudinaryLib) (v : value) (w : World)
    (q : string) :
  (q ∈ files (uploadonCloudinary C v w).2 → q ∈ files w) ∧
  (q ∈ files w → v ≠ VString q → q ∈ files (uploadonCloudinary C v w).2).
Proof.
  destruct (truthy v) eqn:Hv.
  - destruct (uploader_upload C v "auto" (files w)) as [r|e] eqn:Hup.
    + rewrite (upload_resolved_any C v w r Hv Hup). simpl. auto.
    + rewrite (upload_rejected_any C v w e Hv Hup), unlink_then_undefined.
      destruct v as [| |b|p|o]; simpl; auto.
      destruct (decide (p ∈ files w)); simpl; auto.
      split.
      * by intros [Hq _]%elem_of_difference.
      * intros Hq Hne. apply elem_of_difference. split; [done|].
        intros ->%elem_of_singleton. by apply Hne.
  - rewrite (upload_falsy C v w Hv). auto.
Qed.

(** X9.  A successful upload leaves the local file where it was: the
    disk is unchanged, [fs.unlinkSync] is not called, and the URL the
    helper logs is [undefined]. *)
Theorem successful_upload_keeps_local_file (C : CloudinaryLib)
    (localfilepath : string) (w : World) (uploadResult : object) :
  localfilepath ≠ "" →
  uploader_upload C (VString localfilepath) "auto" (files w)
    = Returns uploadResult →
  files (uploadonCloudinary C (VString localfilepath) w).2 = files w ∧
  calls_between w (uploadonCloudinary C (VString localfilepath) w).2 =
    [UploaderUpload (VString localfilepath) "auto";
     ConsoleLog [VString "File is uploaded on cloudinary"; VUndefined]].
Proof.
  intros Hp Hup. rewrite (upload_resolved C localfilepath w uploadResult Hp Hup).
  simpl. split; [done|].
  apply calls_between_app. simpl. by rewrite <- app_assoc.
Qed.

Lemma successful_upload_keeps_local_file_witness :
  let w := with_files {[ Sample.avatar ]} Standin.boot in
  files (uploadonCloudinary Standin.cloudinary (VString Sample.avatar) w).2
    = files w ∧
  calls_between w
    (uploadonCloudinary Standin.cloudinary (VString Sample.avatar) w).2 =
    [UploaderUpload (VString Sample.avatar) "auto";
     ConsoleLog [VString "File is uploaded on cloudinary"; VUndefined]].
Proof.
  intros w.
  apply (successful_upload_keeps_local_file Standin.cloudinary Sample.avatar w
           (Object "UploadApiResponse"
              [("url", "http://res.cloudinary.com/demo/public/temp/avatar.png");
               ("resource_type", "auto")])).
  - discriminate.
  - vm_compute. reflexivity.
Defined.

(** X10.  If the upload throws and no file exists at [localfilepath],
    the helper throws the [ENOENT] of [fs.unlinkSync] to its caller and
    leaves the disk as it was. *)
Theorem failed_upload_without_file_throws (C : CloudinaryLib)
    (localfilepath : string) (w : World) (error : Error) :
  localfilepath ≠ "" →
  uploader_upload C (VString localfilepath) "auto" (files w) = Throws error →
  localfilepath ∉ files w →
  (uploadonCloudinary C (VString localfilepath) w).1
    = Throws (ENOENT "unlink" localfilepath) ∧
  files (uploadonCloudinary C (VString localfilepath) w).2 = files w.
Proof.
  intros Hp Hup Hnin.
  rewrite (upload_rejected C localfilepath w error Hp Hup),
    unlink_then_undefined.
  simpl. by rewrite decide_False.
Qed.

Lemma failed_upload_without_file_throws_witness :
  (uploadonCloudinary Standin.cloudinary_unreachable (VString Sample.avatar)
     Standin.boot).1 = Throws (ENOENT "unlink" Sample.avatar) ∧
  files (uploadonCloudinary Standin.cloudinary_unreachable
           (VString Sample.avatar) Standin.boot).2 = files Standin.boot.
Proof.
  apply (failed_upload_without_file_throws Standin.cloudinary_unreachable
           Sample.avatar Standin.boot
           (mkError "Error" "getaddrinfo ENOTFOUND api.cloudinary.com")).
  - discriminate.
  - reflexivity.
  - vm_compute. discriminate.
Defined.

(** *** asyncHandler *)

(** X11.  The wrapper calls [next] exactly for a rejected promise, once
    and with the reason of the rejection; when the handler returns a
    plain value or a promise that fulfils or never settles, it adds no
    call of [next].  Either way it returns [undefined], not what the
    handler returned. *)
Theorem asyncHandler_forwards_rejections {Req Res : Type}
    (requestHandler : Req → Res → (option Error → Eff http_event unit)
                      → Eff http_event handled)
    (req : Req) (res : Res) (s s' : list http_event) (result : handled) :
  requestHandler req res express_next s = (Returns result, s') →
  asyncHandler requestHandler req res express_next s =
    (Returns VUndefined,
     s' ++ match result with
           | Rejected err => [NextCalled (Some err)]
           | Plain _ | Fulfilled _ | Pending => []
           end).
Proof.
  intros Hrun. unfold asyncHandler, mbind, Eff_bind. rewrite Hrun.
  destruct result; simpl; by rewrite ?app_nil_r.
Qed.

Lemma asyncHandler_forwards_rejections_witness :
  let failing : unit → unit → (option Error → Eff http_event unit)
                → Eff http_event handled :=
    λ _ _ _, settle (Returns (Rejected (mkError "Error" "no such user"))) in
  asyncHandler failing () () express_next [] =
    (Returns VUndefined,
     [] ++ [NextCalled (Some (mkError "Error" "no such user"))]).
Proof.
  intros failing.
  apply (asyncHandler_forwards_rejections failing () () [] []
           (Rejected (mkError "Error" "no such user"))).
  reflexivity.
Defined.

(** X12.  An exception the handler throws before it returns (a handler
    that is not [async]) is not caught by the wrapper: it leaves the
    wrapper as it left the handler, and the wrapper does not call
    [next]. *)
Theorem asyncHandler_lets_throws_escape {E Req Res : Type}
    (requestHandler : Req → Res → (option Error → Eff E unit) → Eff E handled)
    (req : Req) (res : Res) (next : option Error → Eff E unit)
    (s s' : list E) (e : Error) :
  requestHandler req res next s = (Throws e, s') →
  asyncHandler requestHandler req res next s = (Throws e, s').
Proof.
  intros Hrun. unfold asyncHandler, mbind, Eff_bind. by rewrite Hrun.
Qed.

Lemma asyncHandler_lets_throws_escape_witness :
  let throwing : unit → unit → (option Error → Eff http_event unit)
                 → Eff http_event handled :=
    λ _ _ _, settle (Throws (mkError "TypeError" "req.body is undefined")) in
  asyncHandler throwing () () express_next [] =
    (Throws (mkError "TypeError" "req.body is undefined"), []).
Proof.
  intros throwing.
  apply (asyncHandler_lets_throws_escape throwing () () express_next [] []
           (mkError "TypeError" "req.body is undefined")).
  reflexivity.
Defined.

(** *** startServer *)

Section StartServer.
Context (environment : gmap string string) (listen : port → outcome bool).

Lemma startServer_db_down (s : list boot_event) (e : Error) :
  startServer environment (Throws e) listen s =
    (Returns VUndefined,
     s ++ [ConnectDB; ConsoleError "❌ Failed to start server:" e]).
Proof.
  unfold startServer, try_catch_eff, mbind, Eff_bind, emit, settle. simpl.
  by rewrite <- app_assoc.
Qed.

Lemma startServer_db_up (s : list boot_event) :
  startServer environment (Returns ()) listen s =
    (Returns VUndefined,
     s ++ [ConnectDB; AppOn "error"; AppListen (server_port environment)]
       ++ after_listen listen (server_port environment)).
Proof.
  unfold startServer, try_catch_eff, mbind, Eff_bind, emit, settle,
    after_listen. simpl.
  destruct (listen (server_port environment)) as [[|]|e]; simpl;
    by rewrite <- !app_assoc.
Qed.

Lemma after_listen_no_listen (p q : port) :
  AppListen q ∉ after_listen listen p.
Proof.
  unfold after_listen. destruct (listen p) as [[|]|e].
  - intros Hin. apply list_elem_of_singleton in Hin. discriminate Hin.
  - apply not_elem_of_nil.
  - intros Hin. apply list_elem_of_singleton in Hin. discriminate Hin.
Qed.

End StartServer.

(** X13.  [startServer] never rejects: whether [connectDB] resolves or
    rejects, and whether [app.listen] returns or throws, the promise it
    returns is fulfilled with [undefined]; a failure is only written to
    [console.error]. *)
Theorem startServer_never_rejects (environment : gmap string string)
    (connectDB : outcome unit) (listen : port → outcome bool)
    (s : list boot_event) :
  ∃ s', startServer environment connectDB listen s = (Returns VUndefined, s').
Proof.
  destruct connectDB as [[]|e].
  - rewrite startServer_db_up. by eexists.
  - rewrite startServer_db_down. by eexists.
Qed.

(** X14.  The server listens exactly when the database connection was
    made: after a resolved [connectDB] there is one call of [app.listen],
    on the port [process.env.PORT || 8000], after the registration of the
    error listener; after a rejected one there is none, and the error is
    logged. *)
Theorem startServer_listens_iff_connected (environment : gmap string string)
    (connectDB : outcome unit) (listen : port → outcome bool) :
  let events := (startServer environment connectDB listen []).2 in
  ((∃ p, AppListen p ∈ events) ↔ connectDB = Returns ()) ∧
  (connectDB = Returns () →
   ∃ rest, events = [ConnectDB; AppOn "error";
                     AppListen (server_port environment)] ++ rest ∧
           ∀ p, AppListen p ∉ rest) ∧
  (∀ e, connectDB = Throws e →
   events = [ConnectDB; ConsoleError "❌ Failed to start server:" e]).
Proof.
  destruct connectDB as [[]|e]; cbv zeta.
  - rewrite startServer_db_up. simpl. split; [|split].
    + split; [done|]. intros _. exists (server_port environment).
      apply list_elem_of_further, list_elem_of_further, list_elem_of_here.
    + intros _. eexists. split; [done|].
      intros p. apply after_listen_no_listen.
    + intros e [=].
  - rewrite startServer_db_down. simpl. split; [|split].
    + split; [|done]. intros [p Hin].
      apply elem_of_cons in Hin as [[=]|Hin].
      apply list_elem_of_singleton in Hin. discriminate Hin.
    + intros [=].
    + by intros e' [= <-].
Qed.

(** X15.  The port: with [PORT] unset or set to the empty string the
    server listens on 8000; with any other value of [PORT] it listens on
    that string as it is. *)
Theorem startServer_port (environment : gmap string string)
    (listen : port → outcome bool) :
  let events := (startServer environment (Returns ()) listen []).2 in
  (AppListen DefaultPort ∈ events
   ↔ environment !! "PORT" = None ∨ environment !! "PORT" = Some "") ∧
  (∀ s, AppListen (EnvPort s) ∈ events
        ↔ environment !! "PORT" = Some s ∧ s ≠ "").
Proof.
  cbv zeta. rewrite startServer_db_up. simpl.
  assert (∀ q, AppListen q ∈ [ConnectDB; AppOn "error";
                              AppListen (server_port environment)]
                             ++ after_listen listen (server_port environment)
               ↔ q = server_port environment) as Hport.
  { intros q. split.
    - intros Hin. apply elem_of_app in Hin as [Hin|Hin].
      + apply elem_of_cons in Hin as [[=]|Hin].
        apply elem_of_cons in Hin as [[=]|Hin].
        apply list_elem_of_singleton in Hin. by injection Hin.
      + by apply after_listen_no_listen in Hin.
    - intros ->. apply elem_of_app. left.
      apply list_elem_of_further, list_elem_of_further, list_elem_of_here. }
  split; [|intros s]; rewrite Hport; unfold server_port;
    destruct (environment !! "PORT") as [v|]; try case_decide;
    (split; [intros Heq | intros Hset]);
    destruct_or?; destruct_and?; simplify_eq; auto.
Qed.

(** *** The multer file name *)

Lemma pretty_N_char_digit (d : N) : Standin.is_digit (pretty_N_char d) = true.
Proof. unfold pretty_N_char. by repeat case_match. Qed.

Lemma pretty_N_go_digits (x : N) (s : string) :
  digits s = true → digits (pretty_N_go x s) = true.
Proof.
  revert s. induction x as [x IH] using (well_founded_induction N.lt_wf_0).
  intros s Hs. destruct (decide (x = 0)%N) as [->|Hx].
  - by rewrite pretty_N_go_0.
  - rewrite pretty_N_go_step by lia. apply IH.
    + apply N.div_lt; lia.
    + simpl. by rewrite pretty_N_char_digit, Hs.
Qed.

Lemma pretty_N_digits (x : N) : digits (pretty x) = true.
Proof.
  unfold pretty, pretty_N. case_decide; [done|].
  by apply pretty_N_go_digits.
Qed.

Lemma occurs_append (c : Ascii.ascii) (a b : string) :
  occurs c (a +:+ b) = occurs c a || occurs c b.
Proof.
  induction a as [|d a IH]; [done|].
  rewrite append_cons. simpl. by rewrite IH, orb_assoc.
Qed.

Lemma digits_occurs (c : Ascii.ascii) (s : string) :
  Standin.is_digit c = false → digits s = true → occurs c s = false.
Proof.
  intros Hc. induction s as [|d s IH]; [done|]. simpl.
  intros [Hd Hs]%andb_true_iff. rewrite (IH Hs), orb_false_r.
  apply bool_decide_eq_false. intros ->. congruence.
Qed.

(** A name ends in one way only with a dash and a run of digits. *)
Lemma dash_digits_split (x x' d d' : string) :
  digits d = true → digits d' = true →
  x +:+ "-" +:+ d = x' +:+ "-" +:+ d' → x = x' ∧ d = d'.
Proof.
  intros Hd Hd'. revert x'. induction x as [|c x IH]; intros [|c' x'] Heq.
  - injection Heq as Heq. split; [done|]. exact Heq.
  - injection Heq as Hc Hrest. change ("" +:+ d) with d in Hrest. subst d.
    pose proof (digits_occurs "-"%char _ eq_refl Hd) as Hno.
    rewrite occurs_append, occurs_append in Hno. simpl in Hno.
    by rewrite orb_true_r in Hno.
  - injection Heq as Hc Hrest. change ("" +:+ d') with d' in Hrest. subst d'.
    pose proof (digits_occurs "-"%char _ eq_refl Hd') as Hno.
    rewrite occurs_append, occurs_append in Hno. simpl in Hno.
    by rewrite orb_true_r in Hno.
  - rewrite !append_cons in Heq. injection Heq as -> Heq.
    destruct (IH _ Heq) as [-> ->]. done.
Qed.

(** X16.  The name multer stores an upload under determines the field
    name, the time and the random number it was made from: two uploads
    get the same name only if all three agree. *)
Theorem multer_filename_injective (fieldname fieldname' : string)
    (now now' random random' : N) :
  Multer.filename fieldname now random
    = Multer.filename fieldname' now' random' →
  fieldname = fieldname' ∧ now = now' ∧ random = random'.
Proof.
  assert (∀ f n r, Multer.filename f n r
                   = ((f +:+ "-") +:+ pretty n) +:+ "-" +:+ pretty r) as Hshape.
  { intros f n r. unfold Multer.filename. by rewrite !append_assoc. }
  rewrite !Hshape. intros Heq.
  apply dash_digits_split in Heq as [Heq Hr]; [|apply pretty_N_digits..].
  rewrite !append_assoc in Heq.
  apply dash_digits_split in Heq as [Hf Hn]; [|apply pretty_N_digits..].
  split; [done|]. split; by apply (inj pretty).
Qed.

Lemma multer_filename_injective_witness :
  "avatar" = "avatar" ∧ 1678886400000%N = 1678886400000%N
  ∧ 123456789%N = 123456789%N.
Proof.
  apply (multer_filename_injective "avatar" "avatar"
           1678886400000 1678886400000 123456789 123456789).
  reflexivity.
Defined.

Lemma pretty_N_go_length (x : N) (s : string) :
  (String.length s ≤ String.length (pretty_N_go x s))%nat.
Proof.
  revert s. induction x as [x IH] using (well_founded_induction N.lt_wf_0).
  intros s. destruct (decide (x = 0)%N) as [->|Hx].
  - by rewrite pretty_N_go_0.
  - rewrite pretty_N_go_step by lia.
    etrans; [|apply IH, N.div_lt; lia]. simpl. lia.
Qed.

Lemma pretty_N_nonempty (x : N) : pretty x ≠ "".
Proof.
  unfold pretty, pretty_N. case_decide as Hx; [done|].
  rewrite pretty_N_go_step by lia. intros Heq.
  pose proof (pretty_N_go_length (x `div` 10)
                (String (pretty_N_char (x `mod` 10)) "")) as Hlen.
  rewrite Heq in Hlen. simpl in Hlen. lia.
Qed.

(** X17.  The stored name is the field name, a dash, and digits and a
    dash: it is the field name followed by a dash, a non-empty run of
    digits, a dash and a non-empty run of digits.  Nothing is removed
    from the field name, so the name contains a path separator exactly
    if the field name of the form does. *)
Theorem multer_filename_separator (fieldname : string) (now random : N) :
  (∃ a b : string,
     Multer.filename fieldname now random
       = fieldname +:+ "-" +:+ a +:+ "-" +:+ b ∧
     digits a = true ∧ a ≠ "" ∧ digits b = true ∧ b ≠ "") ∧
  occurs "/"%char (Multer.filename fieldname now random)
    = occurs "/"%char fieldname ∧
  String.prefix (fieldname +:+ "-") (Multer.filename fieldname now random)
    = true.
Proof.
  split; [|split].
  - exists (pretty now), (pretty random). split; [done|].
    split; [apply pretty_N_digits|]. split; [apply pretty_N_nonempty|].
    split; [apply pretty_N_digits | apply pretty_N_nonempty].
  - unfold Multer.filename. rewrite !occurs_append.
    rewrite (digits_occurs "/"%char (pretty now) eq_refl (pretty_N_digits now)).
    rewrite (digits_occurs "/"%char (pretty random) eq_refl
               (pretty_N_digits random)).
    simpl. by rewrite orb_false_r.
  - unfold Multer.filename. rewrite <- append_assoc. apply prefix_append.
Qed.

(** *** A password over several saves *)

Lemma isModified_persisted (path : string) (this : Document) :
  isModified path (persisted this) = false.
Proof.
  unfold isModified. simpl. apply bool_decide_eq_false. apply not_elem_of_empty.
Qed.

(** X18.  A password is hashed once and outlives later saves: after the
    save that stores it, a save of the stored document with any other
    path assigned makes no further call of [bcrypt.hash], keeps the
    stored hash, and [comparePassword] still accepts the plaintext. *)
Theorem password_survives_later_saves (B : BcryptLib) (this : Document)
    (p path : string) (v : value) (w : World) :
  bcrypt_hashes_strings B →
  bcrypt_compare_accepts B →
  isModified "Password" this = true →
  get this "Password" = VString p →
  path ≠ "Password" →
  ∃ saved w1 w2,
    userSchema_pre_save B this w = (Returns saved, w1) ∧
    userSchema_pre_save B (assign path v (persisted saved)) w1
      = (Returns (assign path v (persisted saved)), w2) ∧
    get (assign path v (persisted saved)) "Password" = get saved "Password" ∧
    calls_between w w2 = [BcryptHash (VString p) 10; Next; Next] ∧
    ∀ w', (comparePassword B (VString p) (assign path v (persisted saved)) w').1
            = Returns true.
Proof.
  intros Htotal Haccepts Hm Hp Hne.
  destruct (Htotal p 10%nat (rand w (drawn w))) as [h Hh]; [lia|].
  rewrite <- Hp in Hh.
  eexists _, _, _. split; [|split; [|split; [|split]]].
  - apply (pre_save_modified B this w h Hm Hh).
  - apply pre_save_unmodified.
    rewrite isModified_assign_ne by done. apply isModified_persisted.
  - rewrite get_assign_ne by done. apply get_persisted.
  - apply calls_between_app. simpl. rewrite Hp. by rewrite <- !app_assoc.
  - intros w'. rewrite comparePassword_run, get_assign_ne by done.
    rewrite get_persisted, get_assign. simpl.
    rewrite Hp in Hh. by eapply Haccepts.
Qed.

Lemma password_survives_later_saves_witness :
  ∃ saved w1 w2,
    userSchema_pre_save Standin.bcrypt Sample.registration Standin.boot
      = (Returns saved, w1) ∧
    userSchema_pre_save Standin.bcrypt
      (assign "email" (VString "tushar@example.org") (persisted saved)) w1
      = (Returns (assign "email" (VString "tushar@example.org")
                    (persisted saved)), w2) ∧
    get (assign "email" (VString "tushar@example.org") (persisted saved))
      "Password" = get saved "Password" ∧
    calls_between Standin.boot w2
      = [BcryptHash (VString "Sup3rSecret!") 10; Next; Next] ∧
    ∀ w', (comparePassword Standin.bcrypt (VString "Sup3rSecret!")
             (assign "email" (VString "tushar@example.org") (persisted saved))
             w').1 = Returns true.
Proof.
  apply (password_survives_later_saves Standin.bcrypt Sample.registration
           "Sup3rSecret!" "email" (VString "tushar@example.org") Standin.boot).
  - exact standin_bcrypt_hashes_strings.
  - exact standin_bcrypt_compare_accepts.
  - vm_compute. reflexivity.
  - vm_compute. reflexivity.
  - discriminate.
Defined.
